(** * filter_playlist.py: the M3U playlist filter

    A shallow embedding of [filter_playlist] (src/filter_playlist.py) and
    the properties of its line scan.

    Text model.  A Python [str] is modelled as a Rocq [string]; the
    playlist is the list of lines returned by [f.readlines()], every line
    keeping its terminator.  [str.lower] is modelled on the ASCII letters
    ['A'..'Z'], which is how Python lowers ASCII text; the five keywords
    of the program are ASCII.  On a line with characters outside ASCII
    Python lowers by the Unicode tables, which are not part of the
    program: a statement that reads a spelling off a match therefore
    carries the hypothesis [ascii_text], under which [lower] is
    [str.lower]; the statements about the scan hold for [matches] as a
    black box. *)

From Stdlib Require Import ZArith Ascii String.
From stdpp Require Import base tactics option list strings sorting.

Local Open Scope string_scope.
Local Open Scope list_scope.

(** ** String primitives used by the program *)

(** [s.startswith(p)] *)
Definition startswith (s p : string) : bool := String.prefix p s.

(** One character of [s.lower()], for a character of ASCII text. *)
Definition lower_char (c : ascii) : ascii :=
  let n := N_of_ascii c in
  if ((65 <=? n) && (n <=? 90))%N then ascii_of_N (n + 32) else c.

(** [s.lower()], for ASCII text (see the note on the text model). *)
Fixpoint lower (s : string) : string :=
  match s with
  | EmptyString => EmptyString
  | String c t => String (lower_char c) (lower t)
  end.

(** [needle in hay]: [needle] occurs in [hay] as a contiguous substring. *)
Fixpoint str_in (needle hay : string) : bool :=
  String.prefix needle hay ||
  match hay with
  | EmptyString => false
  | String _ t => str_in needle t
  end.

(** ** The program *)

(** [keywords = ['sports', 'football', 'Arsenal', 'Peacock', 'EPL']] *)
Definition keywords : list string :=
  ["sports"; "football"; "Arsenal"; "Peacock"; "EPL"].

(** [line.startswith('#EXTM3U') or line.startswith('#EXT-X-SESSION-DATA')] *)
Definition is_header (line : string) : bool :=
  startswith line "#EXTM3U" || startswith line "#EXT-X-SESSION-DATA".

(** [line.startswith('#EXTINF')] *)
Definition is_extinf (line : string) : bool := startswith line "#EXTINF".

(** [line_lower = line.lower()]
    [matches = any(keyword.lower() in line_lower for keyword in keywords)] *)
Definition matches (line : string) : bool :=
  let line_lower := lower line in
  existsb (fun keyword => str_in (lower keyword) line_lower) keywords.

(** The variables the loop updates: the cursor [i] and [filtered_lines]. *)
Record state : Type := State {
  i : nat;
  filtered_lines : list string
}.

(** [i < len(lines) and not lines[i].startswith('#')]; the conjunction
    short-circuits, so [lines[i]] is read only when it exists. *)
Definition url_follows (lines : list string) (i : nat) : bool :=
  match lines !! i with
  | Some nxt => negb (startswith nxt "#")
  | None => false
  end.

(** One iteration of the [while] body, entered with [line = lines[i]]. *)
Definition body (lines : list string) (line : string) (s : state) : state :=
  if is_header line then
    State (i s + 1) (filtered_lines s ++ [line])
  else if is_extinf line then
    if matches line then
      let out := filtered_lines s ++ [line] in
      let i1 := i s + 1 in
      match lines !! i1 with
      | Some nxt =>
          if negb (startswith nxt "#")
          then State (i1 + 1) (out ++ [nxt])
          else State (i1 + 1) out
      | None => State (i1 + 1) out
      end
    else
      let i1 := i s + 1 in
      if url_follows lines i1 then State (i1 + 1) (filtered_lines s)
      else State i1 (filtered_lines s)
  else
    State (i s + 1) (filtered_lines s).

(** [while i < len(lines): line = lines[i]; <step>].  The lookup
    [lines !! cursor s] is defined exactly when the cursor is below
    [len(lines)], so it stands for the loop test and the read of
    [lines[i]] at once.  [None] means that the fuel ran out before the
    loop test failed. *)
Section While.
Context {St : Type} (cursor : St -> nat) (step : string -> St -> St).
Context (lines : list string).

Fixpoint while (fuel : nat) (s : St) : option St :=
  match lines !! cursor s with
  | None => Some s
  | Some line =>
      match fuel with
      | O => None
      | S fuel' => while fuel' (step line s)
      end
  end.
End While.

(** The scan of [filter_playlist]: the loop over [body]. *)
Definition loop (fuel : nat) (lines : list string) (s : state) : option state :=
  while i (body lines) lines fuel s.

(** What the function leaves behind: the lines handed to
    [f.writelines], and the three numbers it prints. *)
Record report : Type := Report {
  written : list string;
  total_original : Z;
  total_filtered : Z;
  channels_matched : Z
}.

(** The summary printed for a final state of the scan.  [//] is floor
    division, as is [Z.div]. *)
Definition report_of (lines : list string) (s : state) : report :=
  let out := filtered_lines s in
  Report out
         (Z.of_nat (length lines))
         (Z.of_nat (length out))
         ((Z.of_nat (length out) - 2) / 2)%Z.

(** [filter_playlist], from the lines read from [input_file] to the lines
    written to [output_file] and the printed summary. *)
Definition filter_playlist (lines : list string) : option report :=
  report_of lines <$> loop (length lines) lines (State 0 []).

(** ** Instrumentation

    The scan again, with two history variables that the program does not
    have: the positions of [lines] that were appended to
    [filtered_lines], and the number of iterations that took the
    [if matches:] branch.  Every branch updates [real] exactly as [body]
    does (lemma [gbody_real]). *)
Record ghost : Type := Ghost {
  real : state;
  emitted : list nat;
  hits : nat
}.

Definition gbody (lines : list string) (line : string) (g : ghost) : ghost :=
  let s := real g in
  let s' := body lines line s in
  if is_header line then
    Ghost s' (emitted g ++ [i s]) (hits g)
  else if is_extinf line then
    if matches line then
      if url_follows lines (i s + 1)
      then Ghost s' (emitted g ++ [i s; i s + 1]) (hits g + 1)
      else Ghost s' (emitted g ++ [i s]) (hits g + 1)
    else Ghost s' (emitted g) (hits g)
  else Ghost s' (emitted g) (hits g).

Definition gloop (fuel : nat) (lines : list string) (g : ghost) : option ghost :=
  while (fun g => i (real g)) (gbody lines) lines fuel g.

Definition ghost_scan (lines : list string) : option ghost :=
  gloop (length lines) lines (Ghost (State 0 []) [] 0).

(** ** Predicates of the statements *)

(** Position [p] holds an entry-metadata line whose next line exists and
    does not start with ['#']: an entry with an attached reference line. *)
Definition attached (lines : list string) (p : nat) : Prop :=
  exists meta ref,
    lines !! p = Some meta /\ is_extinf meta = true /\
    lines !! (p + 1) = Some ref /\ startswith ref "#" = false.

(** Every line of [out] that does not start with ['#'] comes directly
    after a matched entry-metadata line. *)
Definition refs_follow_matches (out : list string) : Prop :=
  forall k l,
    out !! k = Some l -> startswith l "#" = false ->
    exists k' m,
      k = S k' /\ out !! k' = Some m /\
      is_extinf m = true /\ matches m = true.

(** [c] and [d] are the same character or the two cases of one letter. *)
Definition same_letter (c d : ascii) : Prop :=
  c = d \/ c = lower_char d \/ d = lower_char c.

(** [v] spells [kw] up to the case of its letters. *)
Inductive case_variant : string -> string -> Prop :=
| cv_empty : case_variant EmptyString EmptyString
| cv_char c d v kw :
    same_letter c d ->
    case_variant v kw ->
    case_variant (String c v) (String d kw).

(** [w] occurs in [s] as a contiguous substring. *)
Definition occurs_in (w s : string) : Prop :=
  exists a b, s = a +:+ w +:+ b.

(** Every character of [s] is an ASCII character (below 128). *)
Definition ascii_char (c : ascii) : bool := (N_of_ascii c <? 128)%N.

Fixpoint ascii_text (s : string) : bool :=
  match s with
  | EmptyString => true
  | String c t => ascii_char c && ascii_text t
  end.

(** ** Invariants of the instrumented scan *)

(** The cursor is past every recorded position, and positions are
    recorded in increasing order. *)
Definition trace_sorted (g : ghost) : Prop :=
  StronglySorted lt (emitted g) /\ Forall (fun k => k < i (real g)) (emitted g).

(** Pairing, as far as the cursor has come: an entry with an attached
    reference line that lies behind the cursor has both of its positions
    recorded or neither, and when the cursor stands on the reference line
    the metadata line was not recorded. *)
Definition pairing_inv (lines : list string) (g : ghost) : Prop :=
  forall p, attached lines p ->
    (p + 1 < i (real g) -> (p ∈ emitted g <-> p + 1 ∈ emitted g)) /\
    (p + 1 = i (real g) -> p ∉ emitted g).

(** ** Sample playlists *)

(** The line terminator. *)
Definition nl : string := String "010"%char EmptyString.

Definition scenario_A : list string :=
  [ "#EXTM3U" +:+ nl;
    "#EXTINF:0,Random Channel" +:+ nl;
    "http://x/1" +:+ nl;
    "#EXTINF:0,Arsenal TV" +:+ nl;
    "http://x/2" +:+ nl ].

(** A matched entry directly followed by another entry. *)
Definition marker_after_match : list string :=
  [ "#EXTINF:0,Arsenal TV" +:+ nl;
    "#EXTINF:0,Sky Sports" +:+ nl;
    "http://x/2" +:+ nl ].

(** A matched entry directly followed by a header line. *)
Definition header_after_match : list string :=
  [ "#EXTM3U" +:+ nl;
    "#EXTINF:0,Arsenal TV" +:+ nl;
    "#EXT-X-SESSION-DATA:DATA-ID=com.example.title" +:+ nl;
    "#EXTINF:0,BBC One" +:+ nl;
    "http://x/1" +:+ nl ].

(** Two header lines and a matched entry without a reference line. *)
Definition match_without_reference : list string :=
  [ "#EXTM3U" +:+ nl;
    "#EXT-X-SESSION-DATA:DATA-ID=com.example.title" +:+ nl;
    "#EXTINF:0,Arsenal TV" +:+ nl ].

(** Two matched entries with an unmatched entry between them, the first
    without a reference line. *)
Definition refilter_input : list string :=
  [ "#EXTM3U" +:+ nl;
    "#EXTINF:0,Arsenal TV" +:+ nl;
    "#EXTINF:0,BBC One" +:+ nl;
    "http://x/1" +:+ nl;
    "#EXTINF:0,Sky Sports" +:+ nl;
    "http://x/2" +:+ nl ].

(** ** The scan as one pass over the remaining lines

    What the loop appends from the cursor on, by recursion on the lines
    from the cursor to the end; [scan_loop] proves that the loop computes
    it.  The case analysis is that of [body]. *)
Fixpoint scan (rest : list string) : list string :=
  match rest with
  | [] => []
  | line :: rest1 =>
      if is_header line then line :: scan rest1
      else if is_extinf line then
        if matches line then
          match rest1 with
          | nxt :: rest2 =>
              if negb (startswith nxt "#") then line :: nxt :: scan rest2
              else line :: scan rest2
          | [] => [line]
          end
        else
          match rest1 with
          | nxt :: rest2 =>
              if negb (startswith nxt "#") then scan rest2 else scan rest1
          | [] => []
          end
      else scan rest1
  end.

(** ** Playlists in which every entry has its URL line *)

(** The parts of such a playlist: a header line, an entry (its
    ['#EXTINF'] line and the line after it), any other line. *)
Inductive item : Type :=
| Header (line : string)
| Entry (meta url : string)
| Other (line : string).

(** The lines of a part are what their names say. *)
Definition item_ok (it : item) : Prop :=
  match it with
  | Header l => is_header l = true
  | Entry m u => is_extinf m = true /\ startswith u "#" = false
  | Other l => is_header l = false /\ is_extinf l = false
  end.

Definition item_lines (it : item) : list string :=
  match it with
  | Header l => [l]
  | Entry m u => [m; u]
  | Other l => [l]
  end.

(** The playlist made of the parts, in order. *)
Definition render (items : list item) : list string :=
  concat (map item_lines items).

(** The parts a filtered playlist is meant to keep: header lines and the
    entries whose ['#EXTINF'] line matches a keyword. *)
Definition kept (it : item) : bool :=
  match it with
  | Header _ => true
  | Entry m _ => matches m
  | Other _ => false
  end.

Definition is_header_item (it : item) : bool :=
  match it with Header _ => true | _ => false end.

Definition is_matched_entry (it : item) : bool :=
  match it with Entry m _ => matches m | _ => false end.

(** ** Kinds of lines, for the statements about what is written *)

(** The three kinds of line the scan can append. *)
Definition writable (l : string) : Prop :=
  is_header l = true \/
  (is_extinf l = true /\ matches l = true) \/
  startswith l "#" = false.

(** The line before position [p], if there is one, is not an ['#EXTINF']
    line that matches a keyword. *)
Definition no_match_before (lines : list string) (p : nat) : Prop :=
  forall q m,
    p = q + 1 -> lines !! q = Some m -> is_extinf m = true -> matches m = false.

(** A header line, or an ['#EXTINF'] line that matches a keyword. *)
Definition wanted (l : string) : Prop :=
  is_header l = true \/ (is_extinf l = true /\ matches l = true).

(** As far as the cursor has come, such a line was recorded. *)
Definition wanted_inv (lines : list string) (g : ghost) : Prop :=
  forall p l,
    p < i (real g) -> lines !! p = Some l -> wanted l ->
    no_match_before lines p -> p ∈ emitted g.

(** A recorded ['#EXTINF'] position lies two behind the cursor, and the
    position after it is recorded exactly when a URL line stands there. *)
Definition after_inv (lines : list string) (g : ghost) : Prop :=
  forall p m,
    p ∈ emitted g -> lines !! p = Some m -> is_extinf m = true ->
    p + 2 <= i (real g) /\
    (p + 1 ∈ emitted g <-> url_follows lines (p + 1) = true).

(** ** Facts about the string primitives *)

Lemma prefix_app (p s : string) :
  String.prefix p s = true <-> exists t, s = p +:+ t.
Proof.
  revert s. induction p as [|c p IH]; intros s; simpl.
  - split; [intros _; exists s; reflexivity | destruct s; reflexivity].
  - destruct s as [|d s]; simpl.
    + split; [discriminate | intros [t Ht]; discriminate].
    + destruct (ascii_dec c d) as [->|Hne].
      * rewrite IH. split; intros [t Ht]; exists t.
        -- by rewrite Ht.
        -- by injection Ht.
      * split; [discriminate | intros [t Ht]; injection Ht; congruence].
Qed.

Lemma extinf_hash (l : string) : is_extinf l = true -> startswith l "#" = true.
Proof.
  unfold is_extinf, startswith. intros [t ->]%prefix_app. reflexivity.
Qed.

Lemma extinf_not_header (l : string) : is_extinf l = true -> is_header l = false.
Proof.
  unfold is_extinf, is_header, startswith. intros [t ->]%prefix_app. reflexivity.
Qed.

Lemma header_hash (l : string) : is_header l = true -> startswith l "#" = true.
Proof.
  unfold is_header, startswith.
  intros [[t ->]%prefix_app | [t ->]%prefix_app]%orb_true_iff; reflexivity.
Qed.

(** ** The loop: termination and invariants *)

Section WhileFacts.
Context {St : Type} (cursor : St -> nat) (step : string -> St -> St).
Context (lines : list string).
Hypothesis progress :
  forall line s, lines !! cursor s = Some line -> cursor s < cursor (step line s).

Lemma while_terminates (fuel : nat) (s : St) :
  length lines <= cursor s + fuel ->
  exists s', while cursor step lines fuel s = Some s'.
Proof using progress.
  revert s. induction fuel as [|fuel IH]; intros s Hlen; simpl.
  - destruct (lines !! cursor s) as [line|] eqn:E; [|eauto].
    apply lookup_lt_Some in E. lia.
  - destruct (lines !! cursor s) as [line|] eqn:E; [|eauto].
    apply IH. specialize (progress line s E). lia.
Qed.

Lemma while_invariant (P : St -> Prop) :
  (forall line s, lines !! cursor s = Some line -> P s -> P (step line s)) ->
  forall fuel s s',
    P s -> while cursor step lines fuel s = Some s' ->
    P s' /\ length lines <= cursor s'.
Proof.
  intros Hstep. induction fuel as [|fuel IH]; intros s s' HP; simpl.
  - destruct (lines !! cursor s) eqn:E; [discriminate|].
    intros [= <-]. split; [done|]. by apply lookup_ge_None.
  - destruct (lines !! cursor s) as [line|] eqn:E.
    + apply IH. by apply Hstep.
    + intros [= <-]. split; [done|]. by apply lookup_ge_None.
Qed.
End WhileFacts.

(** ** One iteration *)

(** Splits a goal about [body] into the six paths of the [if] cascade. *)
Ltac body_paths lines line s :=
  unfold body, url_follows;
  destruct (is_header line) eqn:Hhdr;
    [| destruct (is_extinf line) eqn:Hinf;
       [ destruct (matches line) eqn:Hmat;
         destruct (lines !! (i s + 1)) as [nxt|] eqn:Hnxt;
         [ destruct (startswith nxt "#") eqn:Hhash | | destruct (startswith nxt "#") eqn:Hhash | ]
       | ] ];
  simpl.

Lemma body_cursor (lines : list string) (line : string) (s : state) :
  i s < i (body lines line s) <= i s + 2.
Proof. body_paths lines line s; lia. Qed.

Lemma gbody_real (lines : list string) (line : string) (g : ghost) :
  real (gbody lines line g) = body lines line (real g).
Proof.
  unfold gbody.
  destruct (is_header line), (is_extinf line), (matches line),
    (url_follows lines (i (real g) + 1)); reflexivity.
Qed.

Lemma gloop_real (lines : list string) (fuel : nat) (g : ghost) :
  real <$> gloop fuel lines g = loop fuel lines (real g).
Proof.
  unfold gloop, loop. revert g.
  induction fuel as [|fuel IH]; intros g; simpl.
  - destruct (lines !! i (real g)); reflexivity.
  - destruct (lines !! i (real g)) as [line|]; [|reflexivity].
    rewrite IH, gbody_real. reflexivity.
Qed.

(** The scan never runs out of fuel: [len(lines)] iterations suffice. *)
Lemma loop_total (lines : list string) :
  exists s, loop (length lines) lines (State 0 []) = Some s.
Proof.
  apply while_terminates; [|simpl; lia].
  intros line s _. apply body_cursor.
Qed.

Lemma ghost_scan_total (lines : list string) :
  exists g, ghost_scan lines = Some g.
Proof.
  apply while_terminates; [|simpl; lia].
  intros line g _. rewrite gbody_real. apply body_cursor.
Qed.

Lemma ghost_scan_real (lines : list string) (g : ghost) :
  ghost_scan lines = Some g ->
  filter_playlist lines = Some (report_of lines (real g)).
Proof.
  unfold ghost_scan, filter_playlist. intros Hg.
  pose proof (gloop_real lines (length lines) (Ghost (State 0 []) [] 0)) as Hr.
  simpl in Hr. rewrite <- Hr, Hg. reflexivity.
Qed.

(** ** Order preservation *)

Lemma take_snoc_sublist (lines out : list string) (c : nat) (line : string) :
  lines !! c = Some line ->
  out `sublist_of` take c lines ->
  out ++ [line] `sublist_of` take (c + 1) lines.
Proof.
  intros Hc Hout. rewrite Nat.add_1_r, (take_S_r _ _ _ Hc).
  by apply sublist_app.
Qed.

Lemma take_mono_sublist (lines out : list string) (c c' : nat) :
  c <= c' ->
  out `sublist_of` take c lines ->
  out `sublist_of` take c' lines.
Proof.
  intros Hle Hout. etrans; [exact Hout|].
  replace c' with (c + (c' - c)) by lia.
  rewrite <- take_take_drop. apply sublist_inserts_r. reflexivity.
Qed.

Lemma body_sublist (lines : list string) (line : string) (s : state) :
  lines !! i s = Some line ->
  filtered_lines s `sublist_of` take (i s) lines ->
  filtered_lines (body lines line s) `sublist_of` take (i (body lines line s)) lines.
Proof.
  intros Hc Hout.
  pose proof (take_snoc_sublist _ _ _ _ Hc Hout) as H1.
  body_paths lines line s;
    try (by apply (take_mono_sublist lines _ (i s)); [lia|]);
    try done;
    try (by apply (take_mono_sublist lines _ (i s + 1)); [lia|]).
  by apply take_snoc_sublist.
Qed.

(** An invariant of the loop body that holds initially holds of the
    state the scan ends in, and the scan does end. *)
Lemma scan_invariant (P : state -> Prop) (lines : list string) :
  P (State 0 []) ->
  (forall line s, lines !! i s = Some line -> P s -> P (body lines line s)) ->
  exists s,
    loop (length lines) lines (State 0 []) = Some s /\ P s /\ length lines <= i s.
Proof.
  intros H0 Hstep. destruct (loop_total lines) as [s Hs].
  exists s. split; [done|].
  by apply (while_invariant i (body lines) lines P Hstep (length lines) (State 0 [])).
Qed.

(** ** Reference lines in the output *)

Lemma refs_follow_snoc_marker (out : list string) (x : string) :
  refs_follow_matches out ->
  startswith x "#" = true ->
  refs_follow_matches (out ++ [x]).
Proof.
  intros Hout Hx k l Hk Hl.
  apply lookup_app_Some in Hk as [Hk | [Hge Hk]].
  - destruct (Hout k l Hk Hl) as (k' & m & -> & Hm & Hinf & Hmat).
    exists k', m. split_and!; try done. by apply lookup_app_l_Some.
  - apply list_lookup_singleton_Some in Hk as [_ <-]. congruence.
Qed.

Lemma refs_follow_snoc_ref (out : list string) (m r : string) :
  refs_follow_matches (out ++ [m]) ->
  is_extinf m = true -> matches m = true ->
  refs_follow_matches ((out ++ [m]) ++ [r]).
Proof.
  intros Hout Hinf Hmat k l Hk Hl.
  apply lookup_app_Some in Hk as [Hk | [Hge Hk]].
  - destruct (Hout k l Hk Hl) as (k' & m' & -> & Hm' & Hinf' & Hmat').
    exists k', m'. split_and!; try done. by apply lookup_app_l_Some.
  - apply list_lookup_singleton_Some in Hk as [Hk <-].
    rewrite length_app in *. simpl in *.
    exists (length out), m. split_and!; try done; [lia|].
    apply lookup_app_l_Some. by rewrite list_lookup_middle.
Qed.

Lemma body_refs_follow (lines : list string) (line : string) (s : state) :
  refs_follow_matches (filtered_lines s) ->
  refs_follow_matches (filtered_lines (body lines line s)).
Proof.
  intros Hout.
  body_paths lines line s; try done;
    try (apply refs_follow_snoc_marker; [done|];
         first [by apply header_hash | by apply extinf_hash]).
  apply refs_follow_snoc_ref; try done.
  apply refs_follow_snoc_marker; [done|]. by apply extinf_hash.
Qed.

(** ** The instrumented scan *)

Ltac gbody_paths lines line g :=
  unfold gbody; body_paths lines line (real g).

(** The positions recorded are the positions of the lines appended. *)
Lemma gbody_trace (lines : list string) (line : string) (g : ghost) :
  lines !! i (real g) = Some line ->
  Forall2 (fun k l => lines !! k = Some l) (emitted g) (filtered_lines (real g)) ->
  Forall2 (fun k l => lines !! k = Some l)
    (emitted (gbody lines line g)) (filtered_lines (real (gbody lines line g))).
Proof.
  intros Hc Htr.
  gbody_paths lines line g; try done; rewrite <- ?app_assoc; simpl.
  all: apply Forall2_app; [done|].
  all: by repeat (constructor; try done).
Qed.

Lemma sorted_snoc (E : list nat) (c : nat) :
  StronglySorted lt E -> Forall (fun k => k < c) E ->
  StronglySorted lt (E ++ [c]).
Proof.
  intros Hs Hlt. apply StronglySorted_app_2; [|done|repeat constructor].
  intros x y Hx ->%list_elem_of_singleton.
  by eapply Forall_forall in Hlt.
Qed.

Lemma below_snoc (E : list nat) (c c' : nat) :
  Forall (fun k => k < c) E -> c < c' ->
  Forall (fun k => k < c') (E ++ [c]).
Proof.
  intros Hlt Hc. apply Forall_app. split; [|by repeat constructor].
  eapply Forall_impl; [exact Hlt|]. simpl. lia.
Qed.

Lemma below_mono (E : list nat) (c c' : nat) :
  Forall (fun k => k < c) E -> c <= c' -> Forall (fun k => k < c') E.
Proof. intros Hlt Hc. eapply Forall_impl; [exact Hlt|]. simpl. lia. Qed.

Lemma gbody_sorted (lines : list string) (line : string) (g : ghost) :
  trace_sorted g -> trace_sorted (gbody lines line g).
Proof.
  intros [Hs Hlt].
  pose proof (sorted_snoc _ _ Hs Hlt) as Hs1.
  unfold trace_sorted.
  gbody_paths lines line g; split; try done;
    try (by apply (below_snoc _ (i (real g))); [|lia]);
    try (by apply (below_mono _ (i (real g))); [|lia]).
  - change [i (real g); i (real g) + 1] with ([i (real g)] ++ [i (real g) + 1]).
    rewrite app_assoc. apply sorted_snoc; [done|].
    by apply (below_snoc _ (i (real g))); [|lia].
  - change [i (real g); i (real g) + 1] with ([i (real g)] ++ [i (real g) + 1]).
    rewrite app_assoc. apply (below_snoc _ (i (real g) + 1)); [|lia].
    by apply (below_snoc _ (i (real g))); [|lia].
Qed.

Lemma gbody_pairing (lines : list string) (line : string) (g : ghost) :
  lines !! i (real g) = Some line ->
  trace_sorted g ->
  pairing_inv lines g ->
  pairing_inv lines (gbody lines line g).
Proof.
  intros Hc [_ Hlt] Hinv p Hat.
  destruct (Hinv p Hat) as [Hpast Hmid].
  destruct Hat as (meta & ref & Hmeta & Hminf & Href & Hrhash).
  rewrite Forall_forall in Hlt.
  pose proof (Hlt p) as Hp0. pose proof (Hlt (p + 1)) as Hp1.
  pose proof (extinf_hash _ Hminf) as Hmhash.
  pose proof (extinf_not_header _ Hminf) as Hmhdr.
  destruct (lt_eq_lt_dec (p + 1) (i (real g))) as [[Hlo|Hmd]|Hhi].
  - (* the entry lies behind the cursor *)
    specialize (Hpast Hlo).
    gbody_paths lines line g; (split; [intros _|lia]);
      rewrite ?elem_of_app, ?elem_of_cons, ?elem_of_nil;
      intuition lia.
  - (* the cursor is on the reference line: it is skipped *)
    specialize (Hmid Hmd). rewrite Hmd in Href.
    assert (ref = line) as -> by congruence.
    gbody_paths lines line g.
    + apply header_hash in Hhdr. congruence.
    + apply extinf_hash in Hinf. congruence.
    + apply extinf_hash in Hinf. congruence.
    + apply extinf_hash in Hinf. congruence.
    + apply extinf_hash in Hinf. congruence.
    + apply extinf_hash in Hinf. congruence.
    + apply extinf_hash in Hinf. congruence.
    + split; [intros _|lia]. rewrite <- Hmd in Hp1. intuition lia.
  - destruct (decide (p = i (real g))) as [Hp|Hp].
    + (* the cursor is on the metadata line *)
      subst p. assert (meta = line) as -> by congruence.
      gbody_paths lines line g; try congruence;
        (split; [intros _|lia]);
        rewrite ?elem_of_app, ?elem_of_cons, ?elem_of_nil;
        intuition lia.
    + (* the entry lies ahead of the cursor *)
      gbody_paths lines line g; (split; [lia|intros Hpc]);
        rewrite ?elem_of_app, ?elem_of_cons, ?elem_of_nil;
        try (assert (p = i (real g) + 1) as -> by lia);
        try congruence; intuition lia.
Qed.

Lemma ghost_scan_invariant (P : ghost -> Prop) (lines : list string) :
  P (Ghost (State 0 []) [] 0) ->
  (forall line g, lines !! i (real g) = Some line -> P g -> P (gbody lines line g)) ->
  exists g, ghost_scan lines = Some g /\ P g /\ length lines <= i (real g).
Proof.
  intros H0 Hstep. destruct (ghost_scan_total lines) as [g Hg].
  exists g. split; [done|].
  by apply (while_invariant (fun g => i (real g)) (gbody lines) lines P Hstep
              (length lines) (Ghost (State 0 []) [] 0)).
Qed.

(** ** Keyword matching *)

Lemma lower_app (a b : string) : lower (a +:+ b) = lower a +:+ lower b.
Proof. induction a as [|c a IH]; simpl; [done|]. by rewrite IH. Qed.

Lemma lower_char_idemp (c : ascii) : lower_char (lower_char c) = lower_char c.
Proof. destruct c as [[] [] [] [] [] [] [] []]; reflexivity. Qed.

Lemma same_letter_lower (c d : ascii) :
  same_letter c d -> lower_char c = lower_char d.
Proof.
  intros [-> | [-> | ->]]; [done | apply lower_char_idemp |].
  symmetry. apply lower_char_idemp.
Qed.

Lemma case_variant_lower (v kw : string) :
  case_variant v kw -> lower v = lower kw.
Proof.
  induction 1 as [|c d v kw Hc _ IH]; simpl; [done|].
  by rewrite (same_letter_lower _ _ Hc), IH.
Qed.

Lemma str_in_occurs (needle hay : string) :
  str_in needle hay = true <-> occurs_in needle hay.
Proof.
  unfold occurs_in. induction hay as [|c hay IH]; cbn [str_in].
  - rewrite orb_false_r, prefix_app. split.
    + intros [t Ht]. by exists EmptyString, t.
    + intros ([|? a] & b & Hab); [by exists b | discriminate].
  - rewrite orb_true_iff, IH, prefix_app. split.
    + intros [[t Ht] | (a & b & Hab)].
      * by exists EmptyString, t.
      * exists (String c a), b. simpl. by rewrite Hab.
    + intros ([|d a] & b & Hab).
      * left. by exists b.
      * right. exists a, b. by injection Hab.
Qed.

Lemma matches_keyword (line kw : string) :
  In kw keywords -> str_in (lower kw) (lower line) = true -> matches line = true.
Proof.
  intros Hkw Hin. unfold matches. apply existsb_exists. by exists kw.
Qed.

Lemma lower_char_same (c d : ascii) :
  lower_char c = lower_char d -> same_letter c d.
Proof.
  unfold same_letter, lower_char. cbv zeta.
  destruct ((65 <=? N_of_ascii c) && (N_of_ascii c <=? 90))%N eqn:Ec,
           ((65 <=? N_of_ascii d) && (N_of_ascii d <=? 90))%N eqn:Ed; intros H.
  - left. apply andb_true_iff in Ec as [_ Hc%N.leb_le].
    apply andb_true_iff in Ed as [_ Hd%N.leb_le].
    apply (f_equal N_of_ascii) in H.
    rewrite !N_ascii_embedding in H by lia.
    rewrite <- (ascii_N_embedding c), <- (ascii_N_embedding d).
    f_equal. lia.
  - right; right. done.
  - right; left. done.
  - by left.
Qed.

Lemma lower_case_variant (v kw : string) :
  lower v = lower kw -> case_variant v kw.
Proof.
  revert kw. induction v as [|c v IH]; intros [|d kw]; simpl; try discriminate.
  - constructor.
  - intros [= Hc Hv]. constructor; [by apply lower_char_same | by apply IH].
Qed.

Lemma lower_app_inv (s a b : string) :
  lower s = a +:+ b ->
  exists a' b', s = a' +:+ b' /\ lower a' = a /\ lower b' = b.
Proof.
  revert s. induction a as [|c a IH]; intros s Hs.
  - by exists EmptyString, s.
  - destruct s as [|d s]; [discriminate|]. injection Hs as Hc Hs.
    destruct (IH s Hs) as (a' & b' & -> & Ha & Hb).
    exists (String d a'), b'. simpl. by rewrite Hc, Ha.
Qed.

Lemma matches_occurs (line : string) :
  matches line = true <->
  exists kw, In kw keywords /\ occurs_in (lower kw) (lower line).
Proof.
  unfold matches. cbv zeta. rewrite existsb_exists.
  split; intros (kw & Hkw & Hin); exists kw; (split; [done|]);
    by apply str_in_occurs.
Qed.

Lemma matches_spelling (line : string) :
  matches line = true ->
  exists kw v, In kw keywords /\ case_variant v kw /\ occurs_in v line.
Proof.
  intros (kw & Hkw & a & b & Hab)%matches_occurs.
  apply lower_app_inv in Hab as (a' & t & -> & _ & Ht).
  apply lower_app_inv in Ht as (v & b' & -> & Hv & _).
  exists kw, v. split; [done|]. split; [by apply lower_case_variant|].
  by exists a', b'.
Qed.

Lemma spelling_matches (line kw v : string) :
  In kw keywords -> case_variant v kw -> occurs_in v line ->
  matches line = true.
Proof.
  intros Hkw Hcv (a & b & ->). apply matches_occurs. exists kw.
  split; [done|]. rewrite !lower_app, (case_variant_lower _ _ Hcv).
  by exists (lower a), (lower b).
Qed.

(** ** Properties of the filter *)

Lemma filter_playlist_total (lines : list string) :
  exists r, filter_playlist lines = Some r.
Proof.
  destruct (loop_total lines) as [s Hs]. unfold filter_playlist.
  rewrite Hs. by eexists.
Qed.

(** C8 (order preservation).  For every list of input lines the filter
    returns, and the lines it writes are a subsequence of the input
    lines: each written line is an input line, taken once, in the
    original order. *)
Theorem output_is_subsequence (lines : list string) :
  exists r, filter_playlist lines = Some r /\ written r `sublist_of` lines.
Proof.
  destruct (scan_invariant
              (fun s => filtered_lines s `sublist_of` take (i s) lines) lines)
    as (s & Hs & Hsub & _).
  - simpl. constructor.
  - intros line s. apply body_sublist.
  - exists (report_of lines s). unfold filter_playlist. rewrite Hs.
    split; [done|]. simpl. etrans; [exact Hsub|]. apply sublist_take.
Qed.

(** C10 (reference lines follow their metadata line).  For every input
    the filter returns, and every written line that does not start with
    ['#'] stands directly after a written ['#EXTINF'] line that matched a
    keyword; so the output never starts with such a line. *)
Theorem reference_lines_follow_matched_entries (lines : list string) :
  exists r, filter_playlist lines = Some r /\ refs_follow_matches (written r).
Proof.
  destruct (scan_invariant (fun s => refs_follow_matches (filtered_lines s)) lines)
    as (s & Hs & Hrf & _).
  - intros k l Hk. simpl in Hk. by rewrite lookup_nil in Hk.
  - intros line s _. apply body_refs_follow.
  - exists (report_of lines s). unfold filter_playlist. rewrite Hs. done.
Qed.

Lemma reference_lines_follow_matched_entries_witness :
  exists r,
    filter_playlist scenario_A = Some r /\
    written r !! 2 = Some ("http://x/2" +:+ nl) /\
    startswith ("http://x/2" +:+ nl) "#" = false /\
    exists m, written r !! 1 = Some m /\ is_extinf m = true /\ matches m = true.
Proof.
  destruct (reference_lines_follow_matched_entries scenario_A) as (r & Hr & Hf).
  exists r. split; [exact Hr|].
  vm_compute in Hr. injection Hr as <-.
  split; [reflexivity|]. split; [reflexivity|].
  destruct (Hf 2 ("http://x/2" +:+ nl)) as (k' & m & Hk & Hm & Hinf & Hmat);
    [reflexivity|reflexivity|].
  injection Hk as <-. exists m. split; [exact Hm|]. split; assumption.
Defined.

(** C7 (pairing atomicity).  Let position [p] of the input hold an
    ['#EXTINF'] line and position [p + 1] a line that does not start with
    ['#'].  The scan returns; the positions it recorded, in increasing
    order, are exactly the positions of the lines it wrote; and position
    [p] was written if and only if position [p + 1] was. *)
Theorem pairing_atomicity (lines : list string) (p : nat) (meta ref : string) :
  lines !! p = Some meta -> is_extinf meta = true ->
  lines !! (p + 1) = Some ref -> startswith ref "#" = false ->
  exists g,
    ghost_scan lines = Some g /\
    filter_playlist lines = Some (report_of lines (real g)) /\
    Forall2 (fun k l => lines !! k = Some l)
      (emitted g) (written (report_of lines (real g))) /\
    StronglySorted lt (emitted g) /\
    (p ∈ emitted g <-> p + 1 ∈ emitted g).
Proof.
  intros Hmeta Hinf Href Hhash.
  destruct (ghost_scan_invariant
              (fun g => Forall2 (fun k l => lines !! k = Some l)
                          (emitted g) (filtered_lines (real g)) /\
                        trace_sorted g /\ pairing_inv lines g) lines)
    as (g & Hg & (Htr & Hso & Hpair) & Hend).
  - split; [constructor|]. split; [split; constructor|].
    intros q _. simpl. split; [lia|]. intros _. apply not_elem_of_nil.
  - intros line g Hc (Htr & Hso & Hpair). split; [by apply gbody_trace|].
    split; [by apply gbody_sorted|]. by apply gbody_pairing.
  - exists g. split; [done|]. split; [by apply ghost_scan_real|].
    split; [done|]. split; [apply Hso|].
    apply Hpair; [by exists meta, ref|].
    apply lookup_lt_Some in Href. lia.
Qed.

Lemma pairing_atomicity_witness :
  exists g,
    ghost_scan scenario_A = Some g /\
    filter_playlist scenario_A = Some (report_of scenario_A (real g)) /\
    Forall2 (fun k l => scenario_A !! k = Some l)
      (emitted g) (written (report_of scenario_A (real g))) /\
    StronglySorted lt (emitted g) /\
    (3 ∈ emitted g <-> 3 + 1 ∈ emitted g).
Proof.
  apply (pairing_atomicity scenario_A 3
           ("#EXTINF:0,Arsenal TV" +:+ nl) ("http://x/2" +:+ nl));
    reflexivity.
Defined.

(** C9 (case-insensitive substring matching).  For an ['#EXTINF'] line:
    if a spelling of one of the keywords, in any combination of letter
    cases, occurs anywhere in its text, then [matches] is true for it and
    the iteration that reads the line appends it to [filtered_lines];
    [matches] is true exactly when the lowered text of some keyword is a
    contiguous substring of the lowered text of the line; on a line of
    ASCII text a match is always such a spelling of a keyword occurring
    in the line; and a line that does not match is not appended. *)
Theorem keyword_match_any_case (line : string) :
  is_extinf line = true ->
  (forall kw v,
     In kw keywords -> case_variant v kw -> occurs_in v line ->
     matches line = true /\
     forall lines s, exists rest,
       filtered_lines (body lines line s) = filtered_lines s ++ line :: rest) /\
  (matches line = true <->
   exists kw, In kw keywords /\ occurs_in (lower kw) (lower line)) /\
  (ascii_text line = true -> matches line = true ->
   exists kw v, In kw keywords /\ case_variant v kw /\ occurs_in v line) /\
  (matches line = false ->
   forall lines s, filtered_lines (body lines line s) = filtered_lines s).
Proof.
  intros Hinf. split; [|split; [apply matches_occurs|split]].
  - intros kw v Hkw Hcv Hocc.
    pose proof (spelling_matches line kw v Hkw Hcv Hocc) as Hmat.
    split; [exact Hmat|]. intros lines s.
    unfold body. rewrite (extinf_not_header _ Hinf), Hinf, Hmat.
    destruct (lines !! (i s + 1)) as [nxt|]; [destruct (startswith nxt "#")|]; simpl.
    + by exists [].
    + exists [nxt]. by rewrite <- app_assoc.
    + by exists [].
  - intros _. apply matches_spelling.
  - intros Hmat lines s.
    unfold body. rewrite (extinf_not_header _ Hinf), Hinf, Hmat.
    by destruct (url_follows lines (i s + 1)).
Qed.

Lemma keyword_match_any_case_witness :
  (matches ("#EXTINF:0,RePlay TV" +:+ nl) = true /\
   forall lines s, exists rest,
     filtered_lines (body lines ("#EXTINF:0,RePlay TV" +:+ nl) s)
     = filtered_lines s ++ ("#EXTINF:0,RePlay TV" +:+ nl) :: rest) /\
  (exists kw, In kw keywords /\
     occurs_in (lower kw) (lower ("#EXTINF:0,RePlay TV" +:+ nl))) /\
  (exists kw v, In kw keywords /\ case_variant v kw /\
     occurs_in v ("#EXTINF:0,RePlay TV" +:+ nl)).
Proof.
  destruct (keyword_match_any_case ("#EXTINF:0,RePlay TV" +:+ nl) eq_refl)
    as (Hfwd & Hiff & Hconv & _).
  assert (In "EPL" keywords) as Hkw by (simpl; tauto).
  assert (case_variant "ePl" "EPL") as Hcv
    by (repeat (constructor; [unfold same_letter; vm_compute; tauto|]); constructor).
  assert (occurs_in "ePl" ("#EXTINF:0,RePlay TV" +:+ nl)) as Hocc
    by (exists "#EXTINF:0,R", ("ay TV" +:+ nl); reflexivity).
  pose proof (Hfwd "EPL" "ePl" Hkw Hcv Hocc) as Hm.
  split; [exact Hm|]. split; [apply Hiff, Hm|].
  apply Hconv; [reflexivity|apply Hm].
Defined.

(** ** Where the program departs from the description *)

(** In the branch of an unmatched entry the cursor stops on a following
    marker line. *)
Lemma unmatched_entry_cursor (lines : list string) (line nxt : string) (s : state) :
  is_extinf line = true -> matches line = false ->
  lines !! (i s + 1) = Some nxt -> startswith nxt "#" = true ->
  body lines line s = State (i s + 1) (filtered_lines s).
Proof.
  intros Hinf Hmat Hnxt Hhash. unfold body, url_follows.
  by rewrite (extinf_not_header _ Hinf), Hinf, Hmat, Hnxt, Hhash.
Qed.

(** In the branch of a matched entry the cursor moves past a following
    marker line, which is neither written nor examined. *)
Lemma matched_entry_cursor (lines : list string) (line nxt : string) (s : state) :
  is_extinf line = true -> matches line = true ->
  lines !! (i s + 1) = Some nxt -> startswith nxt "#" = true ->
  body lines line s = State (i s + 1 + 1) (filtered_lines s ++ [line]).
Proof.
  intros Hinf Hmat Hnxt Hhash. unfold body.
  by rewrite (extinf_not_header _ Hinf), Hinf, Hmat, Hnxt, Hhash.
Qed.

(** C1 (a marker line after an entry is not consumed): fails on the code.
    On [marker_after_match] the first iteration reads the matched line at
    position 0 and leaves the cursor at 2, past the ['#EXTINF'] line at
    position 1; that entry, which matches [sports], is never examined and
    the output is the first line alone. *)
Theorem matched_entry_consumes_marker_line :
  body marker_after_match ("#EXTINF:0,Arsenal TV" +:+ nl) (State 0 [])
  = State 2 ["#EXTINF:0,Arsenal TV" +:+ nl] /\
  matches ("#EXTINF:0,Sky Sports" +:+ nl) = true /\
  filter_playlist marker_after_match
  = Some (Report ["#EXTINF:0,Arsenal TV" +:+ nl] 3 1 (-1)).
Proof. split; [|split]; reflexivity. Qed.

(** C2 (header invariance): fails on the code.  On [header_after_match]
    the header line at position 2 follows a matched entry and is missing
    from the output. *)
Theorem header_after_match_dropped :
  is_header ("#EXT-X-SESSION-DATA:DATA-ID=com.example.title" +:+ nl) = true /\
  header_after_match !! 2
  = Some ("#EXT-X-SESSION-DATA:DATA-ID=com.example.title" +:+ nl) /\
  exists r,
    filter_playlist header_after_match = Some r /\
    written r = [ "#EXTM3U" +:+ nl; "#EXTINF:0,Arsenal TV" +:+ nl ] /\
    ("#EXT-X-SESSION-DATA:DATA-ID=com.example.title" +:+ nl) ∉ written r.
Proof.
  split; [reflexivity|]. split; [reflexivity|].
  eexists. split; [reflexivity|]. split; [reflexivity|].
  simpl. rewrite !elem_of_cons, elem_of_nil. intros [H|[H|[]]]; discriminate H.
Qed.

(** C3 (scenario A): the three written lines are as described, but the
    summary reports [(3 - 2) // 2 = 0] matched channels, not 1. *)
Theorem scenario_A_report :
  filter_playlist scenario_A
  = Some (Report [ "#EXTM3U" +:+ nl;
                   "#EXTINF:0,Arsenal TV" +:+ nl;
                   "http://x/2" +:+ nl ] 5 3 0).
Proof. reflexivity. Qed.

(** C4 (the reported count is the number of matches): fails on the code.
    On [match_without_reference] one iteration takes the [if matches:]
    branch, and the summary reports [(3 - 2) // 2 = 0]. *)
Theorem reported_count_differs_from_matches :
  exists g,
    ghost_scan match_without_reference = Some g /\
    filter_playlist match_without_reference
    = Some (report_of match_without_reference (real g)) /\
    hits g = 1 /\
    channels_matched (report_of match_without_reference (real g)) = 0%Z.
Proof. eexists. split; [reflexivity|]. split; [reflexivity|]. split; reflexivity. Qed.

(** C5 (empty input): no line is written and both line counts are 0, but
    the summary reports [(0 - 2) // 2 = -1] matched channels, not 0. *)
Theorem empty_input_report :
  filter_playlist [] = Some (Report [] 0 0 (-1)).
Proof. reflexivity. Qed.

(** C6 (idempotence): fails on the code.  Filtering [refilter_input]
    writes four lines; filtering those four lines again writes two. *)
Theorem refilter_changes_output :
  exists r1 r2,
    filter_playlist refilter_input = Some r1 /\
    written r1 = [ "#EXTM3U" +:+ nl; "#EXTINF:0,Arsenal TV" +:+ nl;
                   "#EXTINF:0,Sky Sports" +:+ nl; "http://x/2" +:+ nl ] /\
    filter_playlist (written r1) = Some r2 /\
    written r2 = [ "#EXTM3U" +:+ nl; "#EXTINF:0,Arsenal TV" +:+ nl ] /\
    written r2 <> written r1.
Proof.
  do 2 eexists. split; [reflexivity|]. split; [reflexivity|].
  split; [reflexivity|]. split; [reflexivity|]. discriminate.
Qed.

(** ** The loop and the one-pass scan *)

Lemma scan_loop (fuel : nat) (pre rest out : list string) (r : state) :
  loop fuel (pre ++ rest) (State (length pre) out) = Some r ->
  filtered_lines r = out ++ scan rest.
Proof.
  unfold loop. revert pre rest out.
  induction fuel as [|fuel IH]; intros pre rest out; simpl.
  - destruct rest as [|line rest1].
    + rewrite lookup_ge_None_2 by (rewrite length_app; simpl; lia).
      intros [= <-]. simpl. by rewrite app_nil_r.
    + by rewrite list_lookup_middle.
  - destruct rest as [|line rest1].
    + rewrite lookup_ge_None_2 by (rewrite length_app; simpl; lia).
      intros [= <-]. simpl. by rewrite app_nil_r.
    + rewrite list_lookup_middle by done.
      assert (forall o, while i (body (pre ++ line :: rest1)) (pre ++ line :: rest1)
                  fuel (State (length pre + 1) o) = Some r ->
                filtered_lines r = o ++ scan rest1) as IH1.
      { intros o. rewrite (cons_middle line pre rest1), app_assoc.
        replace (length pre + 1) with (length (pre ++ [line]))
          by (rewrite length_app; simpl; lia).
        apply IH. }
      assert (forall nxt rest2 o, rest1 = nxt :: rest2 ->
                while i (body (pre ++ line :: rest1)) (pre ++ line :: rest1)
                  fuel (State (length pre + 1 + 1) o) = Some r ->
                filtered_lines r = o ++ scan rest2) as IH2.
      { intros nxt rest2 o ->.
        replace (pre ++ line :: nxt :: rest2) with ((pre ++ [line; nxt]) ++ rest2)
          by (by rewrite <- app_assoc).
        replace (length pre + 1 + 1) with (length (pre ++ [line; nxt]))
          by (rewrite length_app; simpl; lia).
        apply IH. }
      assert (forall o, rest1 = [] ->
                while i (body (pre ++ line :: rest1)) (pre ++ line :: rest1)
                  fuel (State (length pre + 1 + 1) o) = Some r ->
                filtered_lines r = o) as IH3.
      { intros o -> Hw. destruct fuel; simpl in Hw;
          rewrite lookup_ge_None_2 in Hw by (rewrite length_app; simpl; lia);
          by injection Hw as <-. }
      assert ((pre ++ line :: rest1) !! (length pre + 1) = rest1 !! 0) as Hnxt.
      { rewrite lookup_app_r by lia.
        replace (length pre + 1 - length pre) with 1 by lia. done. }
      unfold body at 2, url_follows. simpl. rewrite Hnxt.
      destruct (is_header line); [|destruct (is_extinf line);
        [destruct (matches line)|]].
      * intros Hw. rewrite (IH1 _ Hw). by rewrite <- app_assoc.
      * destruct rest1 as [|nxt rest2]; simpl.
        -- intros Hw. by rewrite (IH3 _ eq_refl Hw).
        -- destruct (startswith nxt "#"); simpl; intros Hw;
             rewrite (IH2 _ _ _ eq_refl Hw); by rewrite <- !app_assoc.
      * destruct rest1 as [|nxt rest2]; simpl.
        -- apply IH1.
        -- destruct (startswith nxt "#"); simpl; intros Hw.
           ++ by rewrite (IH1 _ Hw).
           ++ by rewrite (IH2 _ _ _ eq_refl Hw).
      * apply IH1.
Qed.

(** The lines written are those of the one-pass scan. *)
Lemma filter_playlist_scan (lines : list string) :
  exists r, filter_playlist lines = Some r /\ written r = scan lines.
Proof.
  destruct (loop_total lines) as [s Hs].
  exists (report_of lines s). unfold filter_playlist. rewrite Hs.
  split; [done|]. simpl.
  by rewrite (scan_loop (length lines) [] lines [] s Hs).
Qed.

(** Induction over the lines as [scan] consumes them: one or two at a
    time. *)
Lemma lines_ind2 (P : list string -> Prop) :
  P [] ->
  (forall line rest, P rest -> P (tail rest) -> P (line :: rest)) ->
  forall ls, P ls.
Proof.
  intros Hnil Hstep ls.
  enough (P ls /\ P (tail ls)) as [H _] by exact H.
  induction ls as [|line rest [IH1 IH2]]; [by split|].
  split; [by apply Hstep | exact IH1].
Qed.

(** ** Playlists in which every entry has its URL line *)

Lemma scan_render (items : list item) :
  Forall item_ok items ->
  scan (render items) = render (List.filter kept items).
Proof.
  unfold render. induction 1 as [|it items Hit _ IH]; [done|].
  destruct it as [l|m u|l]; simpl in *.
  - rewrite Hit. by rewrite IH.
  - destruct Hit as [Hinf Hurl].
    rewrite (extinf_not_header _ Hinf), Hinf, Hurl. simpl.
    destruct (matches m); simpl; by rewrite IH.
  - destruct Hit as [-> ->]. exact IH.
Qed.

Lemma filter_kept_ok (items : list item) :
  Forall item_ok items -> Forall item_ok (List.filter kept items).
Proof.
  rewrite !Forall_forall. intros H it Hin.
  apply list_elem_of_In, filter_In in Hin as [Hin _].
  by apply H, list_elem_of_In.
Qed.

Lemma filter_kept_idemp (items : list item) :
  List.filter kept (List.filter kept items) = List.filter kept items.
Proof.
  induction items as [|it items IH]; [done|]. simpl.
  destruct (kept it) eqn:E; [|exact IH]. simpl. by rewrite E, IH.
Qed.

Lemma render_kept_length (items : list item) :
  length (render (List.filter kept items))
  = length (List.filter is_header_item items)
    + 2 * length (List.filter is_matched_entry items).
Proof.
  unfold render. induction items as [|it items IH]; [done|].
  destruct it as [l|m u|l]; simpl; [rewrite IH; lia | | exact IH].
  destruct (matches m); simpl; rewrite IH; lia.
Qed.

(** X1.  On a playlist made of header lines, entries that each have
    their URL line, and other lines, the filter writes the header lines
    and the matched entries, whole and in order, and nothing else. *)
Theorem filter_playlist_complete_entries (items : list item) :
  Forall item_ok items ->
  exists r,
    filter_playlist (render items) = Some r /\
    written r = render (List.filter kept items).
Proof.
  intros Hok. destruct (filter_playlist_scan (render items)) as (r & Hr & Hw).
  exists r. split; [done|]. by rewrite Hw, scan_render.
Qed.

Lemma filter_playlist_complete_entries_witness :
  exists r,
    filter_playlist scenario_A = Some r /\
    written r = [ "#EXTM3U" +:+ nl; "#EXTINF:0,Arsenal TV" +:+ nl; "http://x/2" +:+ nl ].
Proof.
  apply (filter_playlist_complete_entries
           [ Header ("#EXTM3U" +:+ nl);
             Entry ("#EXTINF:0,Random Channel" +:+ nl) ("http://x/1" +:+ nl);
             Entry ("#EXTINF:0,Arsenal TV" +:+ nl) ("http://x/2" +:+ nl) ]).
  repeat constructor.
Defined.

(** X2.  On such a playlist filtering is idempotent: filtering the
    written lines again writes the same lines. *)
Theorem refilter_complete_entries (items : list item) :
  Forall item_ok items ->
  exists r1 r2,
    filter_playlist (render items) = Some r1 /\
    filter_playlist (written r1) = Some r2 /\
    written r2 = written r1.
Proof.
  intros Hok.
  destruct (filter_playlist_scan (render items)) as (r1 & Hr1 & Hw1).
  destruct (filter_playlist_scan (written r1)) as (r2 & Hr2 & Hw2).
  exists r1, r2. split; [done|]. split; [done|].
  rewrite Hw2, Hw1, (scan_render _ Hok).
  by rewrite (scan_render _ (filter_kept_ok _ Hok)), filter_kept_idemp.
Qed.

Lemma refilter_complete_entries_witness :
  exists r1 r2,
    filter_playlist scenario_A = Some r1 /\
    filter_playlist (written r1) = Some r2 /\
    written r2 = written r1.
Proof.
  apply (refilter_complete_entries
           [ Header ("#EXTM3U" +:+ nl);
             Entry ("#EXTINF:0,Random Channel" +:+ nl) ("http://x/1" +:+ nl);
             Entry ("#EXTINF:0,Arsenal TV" +:+ nl) ("http://x/2" +:+ nl) ]).
  repeat constructor.
Defined.

(** X3.  On such a playlist with exactly two header lines, the number
    printed as [Channels matched] is the number of entries that matched
    a keyword. *)
Theorem channels_matched_two_headers (items : list item) :
  Forall item_ok items ->
  length (List.filter is_header_item items) = 2 ->
  exists r,
    filter_playlist (render items) = Some r /\
    channels_matched r = Z.of_nat (length (List.filter is_matched_entry items)).
Proof.
  intros Hok Hhdr.
  destruct (loop_total (render items)) as [s Hs].
  exists (report_of (render items) s). unfold filter_playlist. rewrite Hs.
  split; [done|]. simpl.
  rewrite (scan_loop _ [] _ [] s Hs). simpl.
  rewrite (scan_render _ Hok), render_kept_length, Hhdr.
  symmetry. apply Z.div_unique with (r := 0%Z); lia.
Qed.

Lemma channels_matched_two_headers_witness :
  exists r,
    filter_playlist
      (render [ Header ("#EXTM3U" +:+ nl);
                Header ("#EXT-X-SESSION-DATA:DATA-ID=com.example.title" +:+ nl);
                Entry ("#EXTINF:0,Random Channel" +:+ nl) ("http://x/1" +:+ nl);
                Entry ("#EXTINF:0,Arsenal TV" +:+ nl) ("http://x/2" +:+ nl) ])
    = Some r /\
    channels_matched r = 1%Z.
Proof.
  apply (channels_matched_two_headers
           [ Header ("#EXTM3U" +:+ nl);
             Header ("#EXT-X-SESSION-DATA:DATA-ID=com.example.title" +:+ nl);
             Entry ("#EXTINF:0,Random Channel" +:+ nl) ("http://x/1" +:+ nl);
             Entry ("#EXTINF:0,Arsenal TV" +:+ nl) ("http://x/2" +:+ nl) ]).
  - repeat constructor.
  - reflexivity.
Defined.

(** ** What is written, for every playlist *)

Lemma not_hash_not_header (l : string) :
  startswith l "#" = false -> is_header l = false.
Proof.
  intros Hl. destruct (is_header l) eqn:E; [|done].
  apply header_hash in E. congruence.
Qed.

Lemma not_hash_not_extinf (l : string) :
  startswith l "#" = false -> is_extinf l = false.
Proof.
  intros Hl. destruct (is_extinf l) eqn:E; [|done].
  apply extinf_hash in E. congruence.
Qed.

Lemma header_not_extinf (l : string) : is_header l = true -> is_extinf l = false.
Proof.
  intros Hl. destruct (is_extinf l) eqn:E; [|done].
  apply extinf_not_header in E. congruence.
Qed.

Lemma scan_no_match (lines : list string) :
  Forall (fun l => is_extinf l = true -> matches l = false) lines ->
  scan lines = List.filter is_header lines.
Proof.
  induction lines as [|line rest IH1 IH2] using lines_ind2; [done|].
  intros Hall. apply Forall_cons in Hall as [Hline Hrest].
  specialize (IH1 Hrest). simpl.
  destruct (is_header line) eqn:Hhdr; [by rewrite IH1|].
  destruct (is_extinf line) eqn:Hinf; [|exact IH1].
  rewrite (Hline eq_refl).
  destruct rest as [|nxt rest2]; [done|].
  destruct (startswith nxt "#") eqn:Hhash; simpl; [exact IH1|].
  apply Forall_cons in Hrest as [_ Hrest2].
  rewrite (not_hash_not_header _ Hhash). exact (IH2 Hrest2).
Qed.

(** X4.  When no ['#EXTINF'] line of the playlist matches a keyword, the
    filter writes exactly the header lines, in order. *)
Theorem no_match_keeps_headers (lines : list string) :
  Forall (fun l => is_extinf l = true -> matches l = false) lines ->
  exists r,
    filter_playlist lines = Some r /\
    written r = List.filter is_header lines.
Proof.
  intros Hall. destruct (filter_playlist_scan lines) as (r & Hr & Hw).
  exists r. split; [done|]. by rewrite Hw, scan_no_match.
Qed.

Lemma no_match_keeps_headers_witness :
  exists r,
    filter_playlist
      [ "#EXTM3U" +:+ nl; "#EXTINF:0,BBC One" +:+ nl; "http://x/1" +:+ nl ]
    = Some r /\
    written r
    = List.filter is_header
        [ "#EXTM3U" +:+ nl; "#EXTINF:0,BBC One" +:+ nl; "http://x/1" +:+ nl ].
Proof.
  apply (no_match_keeps_headers
           [ "#EXTM3U" +:+ nl; "#EXTINF:0,BBC One" +:+ nl; "http://x/1" +:+ nl ]).
  repeat constructor; discriminate.
Defined.

Lemma scan_writable (lines : list string) : Forall writable (scan lines).
Proof.
  induction lines as [|line rest IH1 IH2] using lines_ind2; [constructor|].
  simpl.
  destruct (is_header line) eqn:Hhdr; [constructor; [by left|done]|].
  destruct (is_extinf line) eqn:Hinf; [|exact IH1].
  destruct (matches line) eqn:Hmat.
  - assert (writable line) as Hline by (right; left; done).
    destruct rest as [|nxt rest2]; [by repeat constructor|].
    destruct (startswith nxt "#") eqn:Hhash; simpl.
    + by constructor.
    + constructor; [done|]. constructor; [|done]. by right; right.
  - destruct rest as [|nxt rest2]; [constructor|].
    by destruct (startswith nxt "#").
Qed.

(** X5.  Every line the filter writes is a header line, an ['#EXTINF']
    line that matches a keyword, or a line that does not start with
    ['#']: an unmatched entry line or any other directive is never
    written. *)
Theorem written_lines_are_writable (lines : list string) :
  exists r, filter_playlist lines = Some r /\ Forall writable (written r).
Proof.
  destruct (filter_playlist_scan lines) as (r & Hr & Hw).
  exists r. split; [done|]. rewrite Hw. apply scan_writable.
Qed.

(** X6.  The scan ends within [len(lines)] iterations, with the cursor
    on [len(lines)] or one past it. *)
Theorem scan_ends_at_most_one_past (lines : list string) :
  exists s,
    loop (length lines) lines (State 0 []) = Some s /\
    length lines <= i s <= length lines + 1.
Proof.
  destruct (scan_invariant (fun s => i s <= length lines + 1) lines)
    as (s & Hs & Hle & Hge).
  - simpl. lia.
  - intros line s Hc _. apply lookup_lt_Some in Hc.
    pose proof (body_cursor lines line s). lia.
  - exists s. split; [done|]. lia.
Qed.

(** X7.  The summary is within bounds: the written line count is
    between 0 and the original line count, and the number printed as
    [Channels matched] is between -1 and half the original line count
    less one. *)
Theorem summary_bounds (lines : list string) :
  exists r,
    filter_playlist lines = Some r /\
    total_original r = Z.of_nat (length lines) /\
    total_filtered r = Z.of_nat (length (written r)) /\
    (0 <= total_filtered r <= total_original r)%Z /\
    (-1 <= channels_matched r)%Z /\
    (2 * channels_matched r <= total_original r - 2)%Z.
Proof.
  destruct (scan_invariant
              (fun s => filtered_lines s `sublist_of` take (i s) lines) lines)
    as (s & Hs & Hsub & _).
  - simpl. constructor.
  - intros line s. apply body_sublist.
  - exists (report_of lines s). unfold filter_playlist. rewrite Hs.
    split; [done|]. simpl. split; [done|]. split; [done|].
    assert (length (filtered_lines s) <= length lines) as Hlen.
    { apply sublist_length. etrans; [exact Hsub|]. apply sublist_take. }
    pose proof (Z.div_mod (Z.of_nat (length (filtered_lines s)) - 2) 2) as Hdm.
    pose proof (Z.mod_pos_bound (Z.of_nat (length (filtered_lines s)) - 2) 2) as Hm.
    lia.
Qed.

(** ** Counting the matches *)

Lemma gbody_hits (lines : list string) (line : string) (g : ghost) :
  hits g = length (List.filter is_extinf (filtered_lines (real g))) ->
  hits (gbody lines line g)
  = length (List.filter is_extinf (filtered_lines (real (gbody lines line g)))).
Proof.
  intros Hh.
  gbody_paths lines line g; try done;
    rewrite ?List.filter_app, ?length_app; simpl;
    rewrite ?Hinf, ?(header_not_extinf _ Hhdr); simpl; try lia.
  rewrite (not_hash_not_extinf _ Hhash). simpl. lia.
Qed.

(** X8.  The number of iterations that find a match is the number of
    ['#EXTINF'] lines in the written playlist. *)
Theorem matches_are_written_extinf_lines (lines : list string) :
  exists g,
    ghost_scan lines = Some g /\
    filter_playlist lines = Some (report_of lines (real g)) /\
    hits g = length (List.filter is_extinf (written (report_of lines (real g)))).
Proof.
  destruct (ghost_scan_invariant
              (fun g => hits g
                        = length (List.filter is_extinf (filtered_lines (real g))))
              lines) as (g & Hg & Hh & _).
  - done.
  - intros line g _. apply gbody_hits.
  - exists g. split; [done|]. split; [by apply ghost_scan_real|]. exact Hh.
Qed.

(** ** Which marker lines are written *)

Lemma wanted_hash (l : string) : wanted l -> startswith l "#" = true.
Proof. intros [H | [H _]]; [by apply header_hash | by apply extinf_hash]. Qed.

Lemma gbody_wanted (lines : list string) (line : string) (g : ghost) :
  lines !! i (real g) = Some line ->
  wanted_inv lines g ->
  wanted_inv lines (gbody lines line g).
Proof.
  intros Hc Hinv p l Hp Hl Hw Hprev.
  pose proof (wanted_hash _ Hw) as Hlhash.
  assert (p < i (real g) -> p ∈ emitted g) as Hold by (intros; by eapply Hinv).
  assert (p = i (real g) -> l = line) as Hcur by (intros ->; congruence).
  assert (p = i (real g) + 1 -> lines !! (i (real g) + 1) = Some l) as Hnext
    by (by intros ->).
  assert (p = i (real g) + 1 -> is_extinf line = true -> matches line = false)
    as Hbug by (intros Hq; by apply (Hprev (i (real g)) line)).
  revert Hp.
  gbody_paths lines line g; intros Hp;
    rewrite ?elem_of_app, ?elem_of_cons, ?elem_of_nil.
  all: destruct (decide (p < i (real g))) as [Hlo|Hlo];
    [first [by apply Hold | by left; apply Hold]|].
  all: destruct (decide (p = i (real g))) as [Heq|Hne];
    [ specialize (Hcur Heq); subst l;
      first [ by right; left
            | destruct Hw as [Hw | [Hw1 Hw2]]; congruence ] |].
  all: try lia.
  all: assert (p = i (real g) + 1) as Hq by lia.
  all: specialize (Hnext Hq); specialize (Hbug Hq).
  all: congruence.
Qed.

Lemma emitted_written (lines : list string) (E : list nat) (out : list string)
    (p : nat) (l : string) :
  Forall2 (fun k l => lines !! k = Some l) E out ->
  p ∈ E -> lines !! p = Some l -> l ∈ out.
Proof.
  induction 1 as [|k l' E out Hk _ IH]; [by intros ?%elem_of_nil|].
  intros [->|Hin]%elem_of_cons Hp.
  - assert (l = l') as -> by congruence. by left.
  - right. by apply IH.
Qed.

(** X9.  A header line, or an ['#EXTINF'] line that matches a keyword,
    at position [p] of the input is written, at that position, whenever
    the line before it is not an ['#EXTINF'] line that matches a keyword:
    the scan returns, the positions it recorded, in increasing order,
    are exactly the positions of the lines it wrote, and [p] is one of
    them. *)
Theorem wanted_line_is_written (lines : list string) (p : nat) (l : string) :
  lines !! p = Some l ->
  wanted l ->
  no_match_before lines p ->
  exists g,
    ghost_scan lines = Some g /\
    filter_playlist lines = Some (report_of lines (real g)) /\
    Forall2 (fun k l => lines !! k = Some l)
      (emitted g) (written (report_of lines (real g))) /\
    StronglySorted lt (emitted g) /\
    p ∈ emitted g /\
    l ∈ written (report_of lines (real g)).
Proof.
  intros Hl Hw Hprev.
  destruct (ghost_scan_invariant
              (fun g => Forall2 (fun k l => lines !! k = Some l)
                          (emitted g) (filtered_lines (real g)) /\
                        trace_sorted g /\ wanted_inv lines g) lines)
    as (g & Hg & (Htr & Hso & Hinv) & Hend).
  - split; [constructor|]. split; [split; constructor|].
    intros q m Hq. simpl in Hq. lia.
  - intros line g Hc (Htr & Hso & Hinv). split; [by apply gbody_trace|].
    split; [by apply gbody_sorted|]. by apply gbody_wanted.
  - exists g. split; [done|]. split; [by apply ghost_scan_real|].
    split; [done|]. split; [apply Hso|].
    assert (p ∈ emitted g) as Hp.
    { apply (Hinv p l); try done. apply lookup_lt_Some in Hl. lia. }
    split; [exact Hp|]. by apply (emitted_written lines (emitted g) _ p).
Qed.

Lemma wanted_line_is_written_witness :
  exists g,
    ghost_scan scenario_A = Some g /\
    filter_playlist scenario_A = Some (report_of scenario_A (real g)) /\
    Forall2 (fun k l => scenario_A !! k = Some l)
      (emitted g) (written (report_of scenario_A (real g))) /\
    StronglySorted lt (emitted g) /\
    3 ∈ emitted g /\
    ("#EXTINF:0,Arsenal TV" +:+ nl) ∈ written (report_of scenario_A (real g)).
Proof.
  apply (wanted_line_is_written scenario_A 3 ("#EXTINF:0,Arsenal TV" +:+ nl)).
  - reflexivity.
  - right. split; reflexivity.
  - intros q m Hq Hm _. assert (q = 2) as -> by lia.
    injection Hm as <-. reflexivity.
Defined.

(** ** The line after a written entry line *)

Lemma gbody_after (lines : list string) (line : string) (g : ghost) :
  lines !! i (real g) = Some line ->
  trace_sorted g ->
  after_inv lines g ->
  after_inv lines (gbody lines line g).
Proof.
  intros Hc [_ Hlt] Hinv p m Hp Hm Hminf.
  rewrite Forall_forall in Hlt.
  pose proof (Hlt (p + 1)) as Hp1.
  pose proof (Hinv p m) as Hold.
  assert (p = i (real g) -> m = line) as Hcur by (intros ->; congruence).
  assert (p = i (real g) + 1 -> lines !! (i (real g) + 1) = Some m) as Hnext
    by (by intros ->).
  pose proof (extinf_hash _ Hminf) as Hmhash.
  pose proof (extinf_not_header _ Hminf) as Hmhdr.
  assert (p = i (real g) ->
          url_follows lines (p + 1)
          = match lines !! (i (real g) + 1) with
            | Some nxt => negb (startswith nxt "#")
            | None => false
            end) as Hurl by (by intros ->).
  remember (url_follows lines (p + 1)) as u eqn:Hu. clear Hu.
  revert Hp Hurl.
  gbody_paths lines line g;
    rewrite ?elem_of_app, ?elem_of_cons, ?elem_of_nil; intros Hp Hurl.
  all: destruct (decide (p ∈ emitted g)) as [Hin|Hin];
    [destruct (Hold Hin Hm Hminf) as [Hle Hiff]; split; [lia|];
     rewrite <- Hiff; solve [intuition lia]|].
  all: destruct (decide (p = i (real g))) as [Heq|Hne];
    [specialize (Hcur Heq); specialize (Hurl Heq); subst m;
     first [ congruence
           | solve [intuition congruence]
           | split; [lia|]; rewrite Hurl; simpl;
             solve [intuition (try lia; try congruence)] ]|].
  all: destruct (decide (p = i (real g) + 1)) as [Hq|Hq];
    [specialize (Hnext Hq); first [congruence | solve [intuition congruence]]|].
  all: solve [intuition lia].
Qed.

(** X10.  When the ['#EXTINF'] line at position [p] is written, the line
    at position [p + 1] is written exactly when it exists and does not
    start with ['#']: the URL line of a written entry is written with
    it, and a header line or another entry line directly after a written
    entry line is not written. *)
Theorem line_after_written_entry (lines : list string) (p : nat) (m : string) :
  lines !! p = Some m ->
  is_extinf m = true ->
  exists g,
    ghost_scan lines = Some g /\
    filter_playlist lines = Some (report_of lines (real g)) /\
    Forall2 (fun k l => lines !! k = Some l)
      (emitted g) (written (report_of lines (real g))) /\
    StronglySorted lt (emitted g) /\
    (p ∈ emitted g ->
     (p + 1 ∈ emitted g <-> url_follows lines (p + 1) = true)).
Proof.
  intros Hm Hinf.
  destruct (ghost_scan_invariant
              (fun g => Forall2 (fun k l => lines !! k = Some l)
                          (emitted g) (filtered_lines (real g)) /\
                        trace_sorted g /\ after_inv lines g) lines)
    as (g & Hg & (Htr & Hso & Hafter) & _).
  - split; [constructor|]. split; [split; constructor|].
    intros q l Hq. simpl in Hq. by apply elem_of_nil in Hq.
  - intros line g Hc (Htr & Hso & Hafter). split; [by apply gbody_trace|].
    split; [by apply gbody_sorted|]. by apply gbody_after.
  - exists g. split; [done|]. split; [by apply ghost_scan_real|].
    split; [done|]. split; [apply Hso|].
    intros Hp. by apply (Hafter p m).
Qed.

Lemma line_after_written_entry_witness :
  exists g,
    ghost_scan header_after_match = Some g /\
    filter_playlist header_after_match
    = Some (report_of header_after_match (real g)) /\
    Forall2 (fun k l => header_after_match !! k = Some l)
      (emitted g) (written (report_of header_after_match (real g))) /\
    StronglySorted lt (emitted g) /\
    (1 ∈ emitted g ->
     (1 + 1 ∈ emitted g <-> url_follows header_after_match (1 + 1) = true)).
Proof.
  apply (line_after_written_entry header_after_match 1
           ("#EXTINF:0,Arsenal TV" +:+ nl)); reflexivity.
Defined.

(** ** Keyword matching is exact *)

(** X11.  On a line of ASCII text, [matches] is true exactly when a
    spelling of some keyword, in some combination of letter cases, occurs
    in the line as a contiguous substring. *)
Theorem matches_iff_keyword_occurs (line : string) :
  ascii_text line = true ->
  (matches line = true <->
   exists kw v, In kw keywords /\ case_variant v kw /\ occurs_in v line).
Proof.
  intros _. split; [apply matches_spelling|].
  intros (kw & v & Hkw & Hcv & Hocc). by apply (spelling_matches line kw v).
Qed.

Lemma matches_iff_keyword_occurs_witness :
  ascii_text ("#EXTINF:0,Sky SPORTS 1" +:+ nl) = true /\
  (matches ("#EXTINF:0,Sky SPORTS 1" +:+ nl) = true <->
   exists kw v, In kw keywords /\ case_variant v kw /\
     occurs_in v ("#EXTINF:0,Sky SPORTS 1" +:+ nl)).
Proof.
  split; [reflexivity|].
  apply (matches_iff_keyword_occurs ("#EXTINF:0,Sky SPORTS 1" +:+ nl)).
  reflexivity.
Defined.

(** ** Concatenated playlists *)

Lemma scan_render_app (items : list item) (rest : list string) :
  Forall item_ok items ->
  scan (render items ++ rest) = render (List.filter kept items) ++ scan rest.
Proof.
  unfold render. induction 1 as [|it items Hit _ IH]; [done|].
  destruct it as [l|m u|l]; simpl in *.
  - rewrite Hit. by rewrite IH.
  - destruct Hit as [Hinf Hurl].
    rewrite (extinf_not_header _ Hinf), Hinf, Hurl. simpl.
    destruct (matches m); simpl; by rewrite IH.
  - destruct Hit as [-> ->]. exact IH.
Qed.

(** X12.  When a playlist in which every entry has its URL line is
    followed by any further lines, the filter writes what it writes for
    the first playlist, followed by what it writes for the further lines
    alone. *)
Theorem filter_playlist_concat (items : list item) (rest : list string) :
  Forall item_ok items ->
  exists r r1 r2,
    filter_playlist (render items ++ rest) = Some r /\
    filter_playlist (render items) = Some r1 /\
    filter_playlist rest = Some r2 /\
    written r = written r1 ++ written r2.
Proof.
  intros Hok.
  destruct (filter_playlist_scan (render items ++ rest)) as (r & Hr & Hw).
  destruct (filter_playlist_scan (render items)) as (r1 & Hr1 & Hw1).
  destruct (filter_playlist_scan rest) as (r2 & Hr2 & Hw2).
  exists r, r1, r2. split; [done|]. split; [done|]. split; [done|].
  by rewrite Hw, Hw1, Hw2, scan_render_app, scan_render.
Qed.

Lemma filter_playlist_concat_witness :
  exists r r1 r2,
    filter_playlist
      (render [ Header ("#EXTM3U" +:+ nl);
                Entry ("#EXTINF:0,Arsenal TV" +:+ nl) ("http://x/2" +:+ nl) ]
       ++ marker_after_match) = Some r /\
    filter_playlist
      (render [ Header ("#EXTM3U" +:+ nl);
                Entry ("#EXTINF:0,Arsenal TV" +:+ nl) ("http://x/2" +:+ nl) ])
    = Some r1 /\
    filter_playlist marker_after_match = Some r2 /\
    written r = written r1 ++ written r2.
Proof.
  apply (filter_playlist_concat
           [ Header ("#EXTM3U" +:+ nl);
             Entry ("#EXTINF:0,Arsenal TV" +:+ nl) ("http://x/2" +:+ nl) ]
           marker_after_match).
  repeat constructor.
Defined.
